(** * XML to CSV conversion: item detection and record flattening

    A shallow embedding of [convert.py]: the element tree produced by
    [xml.etree.ElementTree], the item detector [detect_items], the
    generator [iter_leaves], the flattener [flatten_item], the header and
    row computation of [write_csv] and the item selection of [main].

    Python strings are modelled by [string]; a character is a code point
    below 256.  Python dictionaries keep their insertion order, which the
    program observes (column order, tie breaking), so they are modelled by
    association lists with unique keys.  Python sets are only tested for
    membership and are modelled by [gset]. *)

From Stdlib Require Import Ascii String.
From stdpp Require Import base list strings gmap.

Local Open Scope string_scope.
Local Open Scope list_scope.
#[local] Set Warnings "-clear-no-such-hyp,-register-all".

(** ** Strings *)

Module PyStr.

(** [str.isspace] on one character, for code points below 256:
    TAB, LF, VT, FF, CR, the four separators FS, GS, RS, US, the space,
    NEL (133) and the no-break space (160). *)
Definition isspace (c : ascii) : bool :=
  let n := nat_of_ascii c in
  (((9 <=? n) && (n <=? 13)) || ((28 <=? n) && (n <=? 32))
   || (n =? 133) || (n =? 160))%nat.

(** [s.lstrip()] *)
Fixpoint lstrip (s : string) : string :=
  match s with
  | EmptyString => EmptyString
  | String c s' => if isspace c then lstrip s' else s
  end.

(** [s.rstrip()] *)
Fixpoint rstrip (s : string) : string :=
  match s with
  | EmptyString => EmptyString
  | String c s' =>
      match rstrip s' with
      | EmptyString => if isspace c then EmptyString else String c EmptyString
      | r => String c r
      end
  end.

(** [s.strip()] *)
Definition strip (s : string) : string := rstrip (lstrip s).

(** [sep.join(l)] *)
Fixpoint join (sep : string) (l : list string) : string :=
  match l with
  | [] => ""
  | [x] => x
  | x :: l' => x +:+ sep +:+ join sep l'
  end.

End PyStr.

(** ** Insertion-ordered dictionaries *)

Module Dict.
Section dict.
Context {V : Type}.

(** [d.get(k)] *)
Fixpoint get (d : list (string * V)) (k : string) : option V :=
  match d with
  | [] => None
  | (k', v) :: d' => if decide (k' = k) then Some v else get d' k
  end.

(** [d[k] = v]: an existing key keeps its position, a new key goes
    to the end. *)
Fixpoint setitem (d : list (string * V)) (k : string) (v : V)
  : list (string * V) :=
  match d with
  | [] => [(k, v)]
  | (k', v') :: d' =>
      if decide (k' = k) then (k', v) :: d' else (k', v') :: setitem d' k v
  end.

(** [d.keys()] *)
Definition keys (d : list (string * V)) : list string := d.*1.

End dict.
End Dict.

Abbreviation dict V := (list (string * V)) (only parsing).

(** The loop [for x in xs: d[key x] = upd (d.get(key x, z)) x], one
    round. *)
Definition accumulate {V X : Type} (key : X → string) (upd : V → X → V)
    (z : V) (d : dict V) (x : X) : dict V :=
  Dict.setitem d (key x) (upd (default z (Dict.get d (key x))) x).

(** ** The element tree *)

(** [ET.Element]: the tag, the attribute dictionary, the optional text
    before the first child, the children.  ([tail] is never read.) *)
Inductive Element : Type :=
  mkElement {
    tag : string;
    attrib : dict string;
    text : option string;
    children : list Element
  }.

(** Induction over the tree, with the hypothesis for every child. *)
Section element_induction.
Variable P : Element → Prop.
Hypothesis step : ∀ tg at_ tx cs,
  Forall P cs → P (mkElement tg at_ tx cs).

Fixpoint Element_nested_ind (e : Element) : P e :=
  match e with
  | mkElement tg at_ tx cs =>
      step tg at_ tx cs
        ((fix go (l : list Element) : Forall P l :=
            match l with
            | [] => List.Forall_nil P
            | c :: l' => List.Forall_cons P c l' (Element_nested_ind c) (go l')
            end) cs)
  end.
End element_induction.

(** [root.iter()]: the element itself, then its descendants, in document
    order. *)
Fixpoint iter (e : Element) : list Element :=
  e :: flat_map iter (children e).

(** ** Item detection *)

(** The [counts] dictionary built for one parent. *)
Definition count_tags (cs : list Element) : dict nat :=
  fold_left
    (λ counts child,
       Dict.setitem counts (tag child)
         (default 0 (Dict.get counts (tag child)) + 1))
    cs [].

(** The tracked best.  The source keeps a triple [(count, parent, tag)]
    whose last two components are [None] together or set together; the
    pair is kept under one [option]. *)
Definition Best : Type := nat * option (Element * string).

Definition update_best (parent : Element) (best : Best) (item : string * nat)
  : Best :=
  if decide (best.1 < item.2) then (item.2, Some (parent, item.1)) else best.

(** One round of the inner loop, on a (parent, tag, count) triple. *)
Definition step_best (best : Best) (x : Element * (string * nat)) : Best :=
  update_best x.1 best x.2.

Definition scan_parent (best : Best) (parent : Element) : Best :=
  fold_left (update_best parent) (count_tags (children parent)) best.

Definition find_best (root : Element) : Best :=
  fold_left scan_parent (iter root) (0, None).

Definition detect_items (root : Element) : list Element * string :=
  match (find_best root).2 with
  | None => (children root, tag root)
  | Some (parent, tg) => (filter (λ c, tag c = tg) (children parent), tg)
  end.

(** ** Flattening *)

(** The fields yielded for the attributes of one element. *)
Definition attr_fields (prefix tg : string) (attrs : dict string)
  : list (string * string) :=
  flat_map
    (λ '(attr, val),
       let key := prefix +:+ tg +:+ "@" +:+ attr in
       if decide (PyStr.strip val = "") then [] else [(key, PyStr.strip val)])
    attrs.

(** [(elem.text or "").strip() if elem.text else ""] *)
Definition leaf_text (t : option string) : string :=
  match t with
  | None => ""
  | Some s => if decide (s = "") then "" else PyStr.strip s
  end.

Definition child_prefix (prefix tg : string) : string :=
  if decide (tg = "") then prefix else prefix +:+ tg +:+ "_".

(** The generator [iter_leaves], as the list of the pairs it yields. *)
Fixpoint iter_leaves (elem : Element) (prefix : string)
  : list (string * string) :=
  attr_fields prefix (tag elem) (attrib elem) ++
  match children elem with
  | [] =>
      if decide (leaf_text (text elem) = "") then []
      else [(prefix +:+ tag elem, leaf_text (text elem))]
  | _ =>
      flat_map (λ child, iter_leaves child (child_prefix prefix (tag elem)))
        (children elem)
  end.

(** [bucket[k].append(v)] on a [defaultdict(list)] *)
Definition bucket_append (bucket : dict (list string)) (kv : string * string)
  : dict (list string) :=
  Dict.setitem bucket kv.1 (default [] (Dict.get bucket kv.1) ++ [kv.2]).

(** One round of the loops [if x not in seen: out.append(x); seen.add(x)]. *)
Definition add_unseen (st : gset string * list string) (x : string)
  : gset string * list string :=
  if decide (x ∈ st.1) then st else ({[x]} ∪ st.1, st.2 ++ [x]).

(** The same round on the output list alone. *)
Definition push_new (acc : list string) (x : string) : list string :=
  if decide (x ∈ acc) then acc else acc ++ [x].

(** The list [uniq] computed for one bucket. *)
Definition uniq (vals : list string) : list string :=
  (fold_left add_unseen vals (∅, [])).2.

Definition merge_bucket (flat : dict string) (kv : string * list string)
  : dict string :=
  Dict.setitem flat kv.1 (PyStr.join " | " (uniq kv.2)).

Definition flatten_item (elem : Element) : dict string :=
  let bucket := fold_left bucket_append (iter_leaves elem "") [] in
  fold_left merge_bucket bucket [].

(** ** Output table *)

(** The list [headers] of [write_csv]. *)
Definition collect_headers (rows : list (dict string)) : list string :=
  (fold_left (λ st r, fold_left add_unseen (Dict.keys r) st) rows (∅, [])).2.

(** The record handed to the writer for one row. *)
Definition render_row (headers : list string) (r : dict string)
  : list string :=
  map (λ k, default "" (Dict.get r k)) headers.

(** The records [write_csv] hands to the CSV writer, header first. *)
Definition write_csv (rows : list (dict string)) : list (list string) :=
  match rows with
  | [] => [["no_data"]]
  | _ =>
      let headers := collect_headers rows in
      headers :: map (render_row headers) rows
  end.

(** ** Item selection in [main] *)

Definition warning (force_tag : string) : string :=
  "UWAGA: Nie znaleziono tagu '" +:+ force_tag
  +:+ "', wykrywam automatycznie...".

(** The items chosen by [main] and the lines printed on standard error. *)
Definition select_items (force_tag : string) (root : Element)
  : list Element * list string :=
  if decide (force_tag = "") then ((detect_items root).1, [])
  else
    match filter (λ e, tag e = force_tag) (iter root) with
    | [] => ((detect_items root).1, [warning force_tag])
    | items => (items, [])
    end.

(** The rows [main] builds, [[flatten_item(e) for e in items]], and the
    table it hands to [write_csv]. *)
Definition main_rows (force_tag : string) (root : Element)
  : list (dict string) :=
  map flatten_item (select_items force_tag root).1.

Definition main_table (force_tag : string) (root : Element)
  : list (list string) :=
  write_csv (main_rows force_tag root).

(** ** Sample documents *)

Definition leaf (tg txt : string) : Element := mkElement tg [] (Some txt) [].
Definition node (tg : string) (cs : list Element) : Element :=
  mkElement tg [] None cs.

Definition offer_doc : Element :=
  node "offer" [node "seller" [leaf "name" "Acme"]].

Definition price_doc : Element :=
  mkElement "price" [("currency", "USD")] (Some "9.99") [].

Definition images_doc : Element :=
  node "item" [leaf "image" "a"; leaf "image" "b"; leaf "image" "a"].

(** A root whose two children carry different tags. *)
Definition mixed_doc : Element :=
  node "r" [leaf "a" "1"; leaf "b" "2"].

(** Two parents with two same-tag children each. *)
Definition tie_doc : Element :=
  node "r" [node "g" [leaf "i" "1"; leaf "i" "2"];
            node "h" [leaf "j" "3"; leaf "j" "4"]].

(** An element with one blank and one filled attribute. *)
Definition blank_attr_doc : Element :=
  mkElement "img" [("alt", "  "); ("src", "x.png")] None [].

(** Two sibling elements on one path, the first with a blank attribute
    and the second with the same attribute filled. *)
Definition nested_blank_doc : Element :=
  node "item" [mkElement "img" [("src", "  ")] None [];
               mkElement "img" [("src", "a")] None []].

(** An element with whitespace-only text. *)
Definition blank_doc : Element := mkElement "note" [] (Some "  ") [].

Definition row_ab : dict string := [("a", "1"); ("b", "2")].
Definition row_bc : dict string := [("b", "3"); ("c", "4")].

(** * Specification-side notions *)

(** Keeping the first occurrence of every value, in order of first
    occurrence. *)
Fixpoint dedup_first (l : list string) : list string :=
  match l with
  | [] => []
  | x :: l' => x :: filter (λ y, y ≠ x) (dedup_first l')
  end.

(** The values yielded under key [k], in the order they are yielded. *)
Definition values_of (k : string) (kvs : list (string * string))
  : list string :=
  (filter (λ kv, kv.1 = k) kvs).*2.

(** How many direct children of [p] carry the tag [t]. *)
Definition tag_count (t : string) (p : Element) : nat :=
  length (filter (λ c, tag c = t) (children p)).

(** The (parent, tag, count) triples in the order the detector meets them:
    parents in document order, the tags of one parent in the order of
    their first child. *)
Definition pairs (root : Element) : list (Element * (string * nat)) :=
  flat_map
    (λ p, map (λ t, (p, (t, tag_count t p)))
            (dedup_first (map tag (children p))))
    (iter root).

(** The largest number of same-tag direct children over all parents. *)
Definition max_repeat (root : Element) : nat :=
  max_list (map (λ x, x.2.2) (pairs root)).

(** The same tree with every attribute removed whose value is empty or
    whitespace only. *)
Fixpoint drop_blank_attrs (e : Element) : Element :=
  mkElement (tag e)
    (filter (λ av, PyStr.strip av.2 ≠ "") (attrib e))
    (text e)
    (map drop_blank_attrs (children e)).

(** The same tree with the text of every element that has children
    removed. *)
Fixpoint clear_mixed_text (e : Element) : Element :=
  mkElement (tag e) (attrib e)
    (match children e with [] => text e | _ => None end)
    (map clear_mixed_text (children e)).

(** A string that is empty or begins with a character that is not
    whitespace. *)
Definition starts_clean (s : string) : Prop :=
  match s with
  | EmptyString => True
  | String c _ => PyStr.isspace c = false
  end.

(** A string made of whitespace only. *)
Fixpoint all_space (s : string) : bool :=
  match s with
  | EmptyString => true
  | String c s' => PyStr.isspace c && all_space s'
  end.

(** * Generic facts *)

Section fold_facts.
Context {A B : Type}.

Lemma fold_left_concat (f : B → A → B) (ls : list (list A)) (b : B) :
  fold_left f (concat ls) b = fold_left (λ b l, fold_left f l b) ls b.
Proof.
  revert b. induction ls as [|l ls IH]; intros b; simpl; [done|].
  by rewrite fold_left_app, IH.
Qed.

Lemma fold_left_flat_map {C} (f : B → A → B) (g : C → list A)
    (l : list C) (b : B) :
  fold_left f (flat_map g l) b = fold_left (λ b c, fold_left f (g c) b) l b.
Proof.
  revert b. induction l as [|c l IH]; intros b; simpl; [done|].
  by rewrite fold_left_app, IH.
Qed.
End fold_facts.

Lemma filter_all {A} (P : A → Prop) `{∀ x, Decision (P x)} (l : list A) :
  (∀ x, x ∈ l → P x) → filter P l = l.
Proof.
  induction l as [|x l IH]; intros Hall; [done|].
  rewrite filter_cons_True by (apply Hall; left).
  f_equal. apply IH. intros y Hy. apply Hall. by right.
Qed.

(** ** First-seen deduplication *)

Lemma elem_of_dedup_first l x : x ∈ dedup_first l ↔ x ∈ l.
Proof.
  induction l as [|y l IH]; simpl; [done|].
  rewrite !elem_of_cons, list_elem_of_filter, IH.
  destruct (decide (x = y)); naive_solver.
Qed.

Lemma NoDup_dedup_first l : NoDup (dedup_first l).
Proof.
  induction l as [|y l IH]; simpl; [constructor|].
  constructor; [|by apply NoDup_filter].
  rewrite list_elem_of_filter. naive_solver.
Qed.

Lemma dedup_first_sublist l : dedup_first l `sublist_of` l.
Proof.
  induction l as [|y l IH]; simpl; [done|].
  constructor. etrans; [apply sublist_filter|done].
Qed.

Lemma dedup_first_nil_inv l : dedup_first l = [] → l = [].
Proof. by destruct l. Qed.

Lemma fold_push_new xs acc :
  fold_left push_new xs acc
  = acc ++ filter (λ x, x ∉ acc) (dedup_first xs).
Proof.
  revert acc. induction xs as [|x xs IH]; intros acc; simpl.
  { by rewrite app_nil_r. }
  rewrite IH. unfold push_new. destruct (decide (x ∈ acc)) as [Hin|Hnin].
  - rewrite filter_cons_False by naive_solver. f_equal.
    rewrite list_filter_filter. apply list_filter_iff. naive_solver.
  - rewrite filter_cons_True by done. rewrite <- app_assoc. simpl.
    do 2 f_equal. rewrite list_filter_filter. apply list_filter_iff.
    intros y. rewrite elem_of_app, list_elem_of_singleton. naive_solver.
Qed.

Lemma fold_push_new_nil xs : fold_left push_new xs [] = dedup_first xs.
Proof.
  rewrite fold_push_new. simpl. apply filter_all.
  intros x _. apply not_elem_of_nil.
Qed.

Lemma fold_add_unseen xs seen acc :
  (∀ x, x ∈ seen ↔ x ∈ acc) →
  (fold_left add_unseen xs (seen, acc)).2 = fold_left push_new xs acc
  ∧ (∀ x, x ∈ (fold_left add_unseen xs (seen, acc)).1
          ↔ x ∈ (fold_left add_unseen xs (seen, acc)).2).
Proof.
  revert seen acc. induction xs as [|x xs IH]; intros seen acc Hinv; simpl.
  { done. }
  unfold add_unseen at 2 4 6, push_new at 2. simpl.
  destruct (decide (x ∈ seen)) as [Hs|Hs], (decide (x ∈ acc)) as [Ha|Ha];
    try (exfalso; naive_solver).
  - by apply IH.
  - apply IH. intros y. rewrite elem_of_union, elem_of_singleton, elem_of_app,
      list_elem_of_singleton. naive_solver.
Qed.

Lemma uniq_dedup_first vals : uniq vals = dedup_first vals.
Proof.
  unfold uniq. rewrite <- fold_push_new_nil.
  apply fold_add_unseen. intros x. by rewrite elem_of_empty, elem_of_nil.
Qed.

Lemma collect_headers_dedup_first rows :
  collect_headers rows = dedup_first (concat (map Dict.keys rows)).
Proof.
  unfold collect_headers. rewrite <- fold_push_new_nil.
  assert (Hflat : ∀ st,
    fold_left (λ st r, fold_left add_unseen (Dict.keys r) st) rows st
    = fold_left add_unseen (concat (map Dict.keys rows)) st).
  { induction rows as [|r rows IH]; intros st; simpl; [done|].
    by rewrite fold_left_app, IH. }
  rewrite Hflat. apply fold_add_unseen.
  intros x. by rewrite elem_of_empty, elem_of_nil.
Qed.

(** ** Dictionaries *)

Section dict_facts.
Context {V : Type}.
Implicit Types (d : list (string * V)) (k : string) (v : V).

Lemma get_setitem d k k' v :
  Dict.get (Dict.setitem d k v) k'
  = if decide (k = k') then Some v else Dict.get d k'.
Proof.
  induction d as [|[k0 v0] d IH]; simpl.
  - by destruct (decide (k = k')).
  - destruct (decide (k0 = k)) as [->|Hne]; simpl.
    + by destruct (decide (k = k')).
    + rewrite IH. destruct (decide (k0 = k')) as [->|?]; [|done].
      by rewrite decide_False.
Qed.

Lemma keys_setitem d k v :
  Dict.keys (Dict.setitem d k v) = push_new (Dict.keys d) k.
Proof.
  unfold push_new, Dict.keys.
  induction d as [|[k0 v0] d IH]; cbn [Dict.setitem]; [done|].
  destruct (decide (k0 = k)) as [->|Hne]; rewrite !fmap_cons; cbn [fst].
  - rewrite decide_True by left. done.
  - rewrite IH. destruct (decide (k ∈ d.*1)) as [Hin|Hnin].
    + rewrite decide_True by (by right). done.
    + rewrite decide_False; [done|]. rewrite elem_of_cons. naive_solver.
Qed.

Lemma get_None_keys d k : Dict.get d k = None ↔ k ∉ Dict.keys d.
Proof.
  unfold Dict.keys. induction d as [|[k0 v0] d IH]; simpl.
  - split; [intros _; apply not_elem_of_nil|done].
  - rewrite not_elem_of_cons. destruct (decide (k0 = k)); naive_solver.
Qed.

Lemma get_Some_elem d k v : Dict.get d k = Some v → (k, v) ∈ d.
Proof.
  induction d as [|[k0 v0] d IH]; simpl; [done|].
  destruct (decide (k0 = k)) as [->|?].
  - intros [= ->]. left.
  - intros ?. right. auto.
Qed.

Lemma elem_get d k v : NoDup (Dict.keys d) → (k, v) ∈ d → Dict.get d k = Some v.
Proof.
  unfold Dict.keys. induction d as [|[k0 v0] d IH]; simpl.
  - intros _ ?%elem_of_nil. done.
  - intros [Hk Hd]%NoDup_cons [[= -> ->]|Hin]%elem_of_cons.
    + by rewrite decide_True.
    + rewrite decide_False; [auto|]. intros ->. apply Hk.
      by apply (list_elem_of_fmap_2 fst) in Hin.
Qed.

Lemma setitem_fresh d k v :
  k ∉ Dict.keys d → Dict.setitem d k v = d ++ [(k, v)].
Proof.
  unfold Dict.keys. induction d as [|[k0 v0] d IH]; simpl; [done|].
  intros [Hne Hd]%not_elem_of_cons.
  rewrite decide_False by done. by rewrite IH.
Qed.

(** A dictionary is determined by its key order and its lookups. *)
Lemma dict_keys_get (z : V) d :
  NoDup (Dict.keys d) →
  d = map (λ k, (k, default z (Dict.get d k))) (Dict.keys d).
Proof.
  unfold Dict.keys. induction d as [|[k0 v0] d IH]; simpl; [done|].
  intros [Hk Hd]%NoDup_cons. rewrite decide_True by done. simpl. f_equal.
  rewrite (IH Hd) at 1. apply map_ext_in. intros k Hin%list_elem_of_In.
  rewrite decide_False; [done|]. by intros ->.
Qed.

Context {X : Type} (key : X → string) (upd : V → X → V) (z : V).

#[local] Abbreviation accumulate := (accumulate key upd z).

Lemma keys_accumulate xs d :
  Dict.keys (fold_left accumulate xs d)
  = fold_left push_new (map key xs) (Dict.keys d).
Proof.
  revert d. induction xs as [|x xs IH]; intros d; simpl; [done|].
  rewrite IH. unfold accumulate. by rewrite keys_setitem.
Qed.

Lemma get_accumulate xs d k :
  default z (Dict.get (fold_left accumulate xs d) k)
  = fold_left upd (filter (λ x, key x = k) xs) (default z (Dict.get d k)).
Proof.
  revert d. induction xs as [|x xs IH]; intros d; simpl; [done|].
  rewrite IH. unfold accumulate. rewrite get_setitem.
  destruct (decide (key x = k)) as [<-|Hne].
  - by rewrite filter_cons_True.
  - by rewrite filter_cons_False.
Qed.

Lemma accumulate_spec xs :
  fold_left accumulate xs []
  = map (λ k, (k, fold_left upd (filter (λ x, key x = k) xs) z))
      (dedup_first (map key xs)).
Proof.
  pose proof (keys_accumulate xs []) as Hkeys. simpl in Hkeys.
  rewrite fold_push_new_nil in Hkeys.
  rewrite (dict_keys_get z (fold_left accumulate xs [])) at 1.
  - rewrite Hkeys. apply map_ext. intros k. by rewrite get_accumulate.
  - rewrite Hkeys. apply NoDup_dedup_first.
Qed.
End dict_facts.

Lemma count_tags_spec cs :
  count_tags cs
  = map (λ t, (t, length (filter (λ c, tag c = t) cs)))
      (dedup_first (map tag cs)).
Proof.
  unfold count_tags.
  change (fold_left _ cs [])
    with (fold_left (accumulate tag (λ n _, n + 1) 0) cs []).
  rewrite accumulate_spec. apply map_ext. intros t. f_equal.
  generalize (filter (λ c, tag c = t) cs). intros l.
  assert (∀ n, fold_left (λ n (_ : Element), n + 1) l n = n + length l) as ->.
  { induction l as [|c l IH]; intros n; simpl; [lia|]. rewrite IH. lia. }
  done.
Qed.

Lemma bucket_spec kvs :
  fold_left bucket_append kvs []
  = map (λ k, (k, values_of k kvs)) (dedup_first (map fst kvs)).
Proof.
  change (fold_left bucket_append kvs [])
    with (fold_left (accumulate fst (λ vs (kv : string * string), vs ++ [kv.2]) [])
            kvs []).
  rewrite accumulate_spec. apply map_ext. intros k. f_equal.
  unfold values_of. generalize (filter (λ kv : string * string, kv.1 = k) kvs).
  intros l.
  assert (∀ vs, fold_left (λ vs (kv : string * string), vs ++ [kv.2]) l vs
                = vs ++ l.*2) as ->.
  { induction l as [|c l IH]; intros vs; simpl; [by rewrite app_nil_r|].
    rewrite IH, <- app_assoc. done. }
  done.
Qed.

Lemma merge_bucket_fold (bucket : list (string * list string)) flat :
  NoDup (Dict.keys flat ++ Dict.keys bucket) →
  fold_left merge_bucket bucket flat
  = flat ++ map (λ kv, (kv.1, PyStr.join " | " (dedup_first kv.2))) bucket.
Proof.
  revert flat. induction bucket as [|[k vals] bucket IH]; intros flat Hnd; simpl.
  { by rewrite app_nil_r. }
  unfold merge_bucket at 2. simpl. rewrite uniq_dedup_first.
  simpl in Hnd. apply NoDup_app in Hnd as (Hf & Hdisj & Hb).
  apply NoDup_cons in Hb as [Hk Hb].
  rewrite setitem_fresh by (intros Hin; apply (Hdisj _ Hin); left).
  rewrite IH.
  - by rewrite <- app_assoc.
  - unfold Dict.keys in *. rewrite fmap_app. simpl. rewrite <- app_assoc. simpl.
    apply NoDup_app. split; [done|]. split; [|by apply NoDup_cons].
    done.
Qed.

(** The row computed by [flatten_item]: the yielded keys in first-seen
    order, each with its values deduplicated and joined. *)
Lemma flatten_item_spec elem :
  flatten_item elem
  = map (λ k, (k, PyStr.join " | "
                    (dedup_first (values_of k (iter_leaves elem "")))))
      (dedup_first (map fst (iter_leaves elem ""))).
Proof.
  unfold flatten_item. rewrite bucket_spec, merge_bucket_fold.
  - simpl. by rewrite map_map.
  - simpl. unfold Dict.keys. rewrite <- list_fmap_compose.
    change (fmap _) with (fmap (M:=list) (@id string)).
    rewrite list_fmap_id. apply NoDup_dedup_first.
Qed.

(** ** Strings *)

Lemma string_app_assoc (a b c : string) : (a +:+ b) +:+ c = a +:+ b +:+ c.
Proof.
  induction a as [|x a IH]; [done|].
  change (String x ((a +:+ b) +:+ c) = String x (a +:+ b +:+ c)).
  by rewrite IH.
Qed.

Lemma string_app_nil_r (a : string) : a +:+ "" = a.
Proof.
  induction a as [|x a IH]; [done|].
  change (String x (a +:+ "") = String x a). by rewrite IH.
Qed.

Lemma string_app_nil_inv (a b : string) : a +:+ b = "" → a = "".
Proof. by destruct a. Qed.

Lemma join_nonempty sep x l : x ≠ "" → PyStr.join sep (x :: l) ≠ "".
Proof.
  intros Hx. destruct l as [|y l]; simpl; [done|].
  intros Heq%string_app_nil_inv. done.
Qed.

Lemma rstrip_empty_iff s : PyStr.rstrip s = "" ↔ all_space s = true.
Proof.
  induction s as [|c s IH]; simpl; [done|].
  destruct (PyStr.rstrip s) eqn:Hr.
  - destruct (PyStr.isspace c); simpl; [tauto|]. split; [done|].
    intros [=].
  - split; [done|]. intros [_ Hs]%andb_prop. apply IH in Hs. done.
Qed.

Lemma all_space_lstrip s : all_space (PyStr.lstrip s) = all_space s.
Proof.
  induction s as [|c s IH]; simpl; [done|].
  destruct (PyStr.isspace c) eqn:Hc; simpl; [done|]. by rewrite Hc.
Qed.

(** A string trims to the empty string exactly when it is empty or made
    of whitespace only. *)
Lemma strip_empty_iff s : PyStr.strip s = "" ↔ all_space s = true.
Proof. unfold PyStr.strip. by rewrite rstrip_empty_iff, all_space_lstrip. Qed.

(** ** Yielded fields *)

Lemma elem_of_flat_map {A B} (f : A → list B) (l : list A) (y : B) :
  y ∈ flat_map f l ↔ ∃ x, x ∈ l ∧ y ∈ f x.
Proof.
  rewrite list_elem_of_In, in_flat_map.
  by setoid_rewrite list_elem_of_In.
Qed.

Lemma attr_fields_elem prefix tg attrs k v :
  (k, v) ∈ attr_fields prefix tg attrs
  ↔ ∃ a val, (a, val) ∈ attrs ∧ PyStr.strip val ≠ ""
      ∧ k = prefix +:+ tg +:+ "@" +:+ a ∧ v = PyStr.strip val.
Proof.
  unfold attr_fields. rewrite elem_of_flat_map. split.
  - intros [[a val] [Hin Hkv]]. destruct (decide (PyStr.strip val = "")).
    + by apply elem_of_nil in Hkv.
    + apply list_elem_of_singleton in Hkv as [= -> ->]. eauto 6.
  - intros (a & val & Hin & Hne & -> & ->). exists (a, val). split; [done|].
    rewrite decide_False by done. left.
Qed.

(** Where a yielded field comes from: an attribute of the element, the
    text of a childless element, or a child visited under the extended
    prefix. *)
Lemma iter_leaves_elem elem prefix k v :
  (k, v) ∈ iter_leaves elem prefix
  ↔ (k, v) ∈ attr_fields prefix (tag elem) (attrib elem)
    ∨ (children elem = [] ∧ leaf_text (text elem) ≠ ""
       ∧ k = prefix +:+ tag elem ∧ v = leaf_text (text elem))
    ∨ (∃ child, child ∈ children elem
       ∧ (k, v) ∈ iter_leaves child (child_prefix prefix (tag elem))).
Proof.
  destruct elem as [tg at_ tx cs]. cbn [iter_leaves tag attrib text children].
  rewrite elem_of_app. apply or_iff_compat_l.
  destruct cs as [|c cs].
  - destruct (decide (leaf_text tx = "")) as [He|Hne].
    + rewrite elem_of_nil. split; [done|].
      intros [(_ & ? & _)|(child & []%elem_of_nil & _)]. done.
    + rewrite list_elem_of_singleton. split.
      * intros [= -> ->]. by left.
      * intros [(_ & _ & -> & ->)|(child & []%elem_of_nil & _)]. done.
  - rewrite elem_of_flat_map. split; [by right|].
    by intros [([=] & _)|?].
Qed.

Lemma iter_leaves_value_nonempty elem :
  ∀ prefix k v, (k, v) ∈ iter_leaves elem prefix → v ≠ "".
Proof.
  induction elem as [tg at_ tx cs IH] using Element_nested_ind.
  intros prefix k v [Hattr|[Hleaf|Hchild]]%iter_leaves_elem.
  - apply attr_fields_elem in Hattr as (a & val & _ & Hne & _ & ->). done.
  - destruct Hleaf as (_ & Hne & _ & ->). done.
  - destruct Hchild as (child & Hin & Hkv). simpl in Hin.
    rewrite Forall_forall in IH. by eapply IH.
Qed.

(** Every key yielded for an element begins with the prefix it was given
    followed by its own tag. *)
Lemma iter_leaves_key_prefix elem :
  ∀ prefix k v, (k, v) ∈ iter_leaves elem prefix →
    ∃ rest, k = prefix +:+ tag elem +:+ rest.
Proof.
  induction elem as [tg at_ tx cs IH] using Element_nested_ind.
  intros prefix k v [Hattr|[Hleaf|Hchild]]%iter_leaves_elem; simpl in *.
  - apply attr_fields_elem in Hattr as (a & val & _ & _ & -> & _). eauto.
  - destruct Hleaf as (_ & _ & -> & _). exists "".
    by rewrite (string_app_nil_r tg).
  - destruct Hchild as (child & Hin & Hkv).
    rewrite Forall_forall in IH. apply (IH _ Hin) in Hkv as [rest ->].
    unfold child_prefix. destruct (decide (tg = "")) as [->|Hne].
    + by exists (tag child +:+ rest).
    + exists ("_" +:+ tag child +:+ rest). by rewrite !string_app_assoc.
Qed.

(** ** The detector's scan *)

Lemma fold_left_fmap {A B C} (f : B → A → B) (g : C → A) (l : list C) b :
  fold_left f (map g l) b = fold_left (λ b c, f b (g c)) l b.
Proof. revert b. induction l as [|c l IH]; intros b; simpl; [done|apply IH]. Qed.

(** The two nested loops visit the triples of [pairs] in order. *)
Lemma find_best_pairs root :
  find_best root = fold_left step_best (pairs root) (0, None).
Proof.
  unfold find_best, pairs. rewrite fold_left_flat_map.
  generalize (0, @None (Element * string)). generalize (iter root).
  intros l. induction l as [|p l IH]; intros best; simpl; [done|].
  rewrite <- IH. f_equal. unfold scan_parent.
  rewrite count_tags_spec, !fold_left_fmap. done.
Qed.

Lemma step_best_keep l (best : Best) :
  Forall (λ x : Element * (string * nat), (x.2.2 ≤ best.1)%nat) l → fold_left step_best l best = best.
Proof.
  revert best. induction l as [|x l IH]; intros best Hall; simpl; [done|].
  apply Forall_cons in Hall as [Hx Hl].
  unfold step_best at 2, update_best. rewrite decide_False by lia. auto.
Qed.

Lemma step_best_bound l (best : Best) m :
  (best.1 < m)%nat → Forall (λ x : Element * (string * nat), (x.2.2 < m)%nat) l →
  ((fold_left step_best l best).1 < m)%nat.
Proof.
  revert best. induction l as [|x l IH]; intros best Hb Hall; simpl; [done|].
  apply Forall_cons in Hall as [Hx Hl]. apply IH; [|done].
  unfold step_best, update_best. by destruct (decide (best.1 < x.2.2)).
Qed.

(** The scan keeps the first triple whose count is the largest. *)
Lemma step_best_first_max l1 p t c l2 (best : Best) :
  (best.1 < c)%nat →
  Forall (λ x : Element * (string * nat), (x.2.2 < c)%nat) l1 →
  Forall (λ x : Element * (string * nat), (x.2.2 ≤ c)%nat) l2 →
  fold_left step_best (l1 ++ (p, (t, c)) :: l2) best = (c, Some (p, t)).
Proof.
  intros Hb H1 H2. rewrite fold_left_app. simpl.
  pose proof (step_best_bound l1 best c Hb H1) as Hlt.
  unfold step_best at 2, update_best. simpl.
  rewrite decide_True by done. by apply step_best_keep.
Qed.

(** A non-empty list has a first element of largest measure. *)
Lemma first_max_split {A} (f : A → nat) (l : list A) :
  l ≠ [] →
  ∃ l1 x l2, l = l1 ++ x :: l2
    ∧ Forall (λ y, (f y < f x)%nat) l1 ∧ Forall (λ y, (f y ≤ f x)%nat) l2.
Proof.
  induction l as [|a l IH]; [done|]. intros _.
  destruct l as [|b l].
  { exists [], a, []. by repeat split. }
  destruct IH as (l1 & x & l2 & Heq & H1 & H2); [done|].
  destruct (decide (f a < f x)) as [Hlt|Hge].
  - exists (a :: l1), x, l2. rewrite Heq. split; [done|].
    split; [by constructor|done].
  - exists [], a, (b :: l). split; [done|]. split; [constructor|].
    rewrite Heq. apply Forall_app. split.
    + eapply Forall_impl; [exact H1|]. simpl. intros; lia.
    + constructor; [lia|]. eapply Forall_impl; [exact H2|]. simpl. intros; lia.
Qed.

Lemma pairs_elem root p t c :
  (p, (t, c)) ∈ pairs root
  ↔ p ∈ iter root ∧ (∃ child, child ∈ children p ∧ tag child = t)
    ∧ c = tag_count t p.
Proof.
  unfold pairs. rewrite elem_of_flat_map. split.
  - intros (p' & Hp & Hin). apply list_elem_of_fmap in Hin as (t' & [= -> -> ->] & Ht).
    apply elem_of_dedup_first, list_elem_of_fmap in Ht as (child & -> & Hc).
    eauto.
  - intros (Hp & (child & Hc & <-) & ->). exists p. split; [done|].
    apply list_elem_of_fmap. exists (tag child). split; [done|].
    apply elem_of_dedup_first. by apply list_elem_of_fmap_2.
Qed.

Lemma pairs_count_pos root x : x ∈ pairs root → (0 < x.2.2)%nat.
Proof.
  destruct x as [p [t c]]. intros (_ & (child & Hc & Ht) & ->)%pairs_elem.
  simpl. unfold tag_count.
  assert (child ∈ filter (λ c, tag c = t) (children p)) as Hin
    by by apply list_elem_of_filter.
  destruct (filter _ _); [by apply elem_of_nil in Hin|simpl; lia].
Qed.

Lemma iter_self e : e ∈ iter e.
Proof. destruct e. left. Qed.

(** The fallback branch is taken only for a root without children. *)
Lemma find_best_None root :
  (find_best root).2 = None ↔ children root = [].
Proof.
  rewrite find_best_pairs. split.
  - intros Hnone. destruct (children root) as [|c cs] eqn:Hcs; [done|].
    exfalso. destruct (first_max_split (λ x : Element * (string * nat), x.2.2)
      (pairs root)) as (l1 & [p [t n]] & l2 & Heq & H1 & H2).
    { intros Hnil.
      assert ((root, (tag c, tag_count (tag c) root)) ∈ pairs root) as Hin.
      { apply pairs_elem. split; [apply iter_self|]. split; [|done].
        exists c. rewrite Hcs. split; [left|done]. }
      rewrite Hnil in Hin. by apply elem_of_nil in Hin. }
    rewrite Heq, step_best_first_max in Hnone; [done|..|done|done].
    simpl. apply (pairs_count_pos root (p, (t, n))). rewrite Heq.
    apply elem_of_app. right. left.
  - intros Hcs. destruct root as [tg at_ tx cs]. simpl in Hcs. subst cs. done.
Qed.

(** Choosing by first largest count: the tracked best and the returned
    items. *)
Lemma detect_first_max root l1 p t c l2 :
  pairs root = l1 ++ (p, (t, c)) :: l2 →
  Forall (λ x : Element * (string * nat), (x.2.2 < c)%nat) l1 →
  Forall (λ x : Element * (string * nat), (x.2.2 ≤ c)%nat) l2 →
  find_best root = (c, Some (p, t))
  ∧ detect_items root = (filter (λ ch, tag ch = t) (children p), t).
Proof.
  intros Heq H1 H2.
  assert (find_best root = (c, Some (p, t))) as Hbest.
  { rewrite find_best_pairs, Heq. apply step_best_first_max; [|done..].
    apply (pairs_count_pos root (p, (t, c))). rewrite Heq.
    apply elem_of_app. right. left. }
  split; [done|]. unfold detect_items. by rewrite Hbest.
Qed.

Lemma max_list_attained (n : nat) (ns : list nat) :
  n ∈ ns → Forall (λ m, (m ≤ n)%nat) ns → max_list ns = n.
Proof.
  intros Hin Hall. apply Nat.le_antisymm.
  - assert (ns ≠ []) as Hne by (intros ->; by apply elem_of_nil in Hin).
    apply max_list_elem_of in Hne. rewrite Forall_forall in Hall. auto.
  - by apply max_list_elem_of_le.
Qed.

(** ** The flat row *)

Lemma get_map_keys {V} (f : string → V) (l : list string) k :
  Dict.get (map (λ k, (k, f k)) l) k
  = if decide (k ∈ l) then Some (f k) else None.
Proof.
  induction l as [|x l IH]; simpl; [done|].
  destruct (decide (x = k)) as [->|Hne].
  - rewrite decide_True by left. done.
  - rewrite IH. destruct (decide (k ∈ l)) as [Hin|Hnin].
    + rewrite decide_True by (by right). done.
    + rewrite decide_False; [done|]. rewrite elem_of_cons. naive_solver.
Qed.

Lemma flatten_item_keys elem :
  Dict.keys (flatten_item elem) = dedup_first (iter_leaves elem "").*1.
Proof.
  rewrite flatten_item_spec. unfold Dict.keys.
  rewrite <- list_fmap_compose. apply list_fmap_id.
Qed.

Lemma flatten_item_get elem k :
  Dict.get (flatten_item elem) k
  = if decide (k ∈ (iter_leaves elem "").*1)
    then Some (PyStr.join " | "
                 (dedup_first (values_of k (iter_leaves elem ""))))
    else None.
Proof.
  rewrite flatten_item_spec, get_map_keys.
  destruct (decide (k ∈ dedup_first _)) as [Hin|Hnin];
    rewrite elem_of_dedup_first in *.
  - by rewrite decide_True.
  - by rewrite decide_False.
Qed.

Lemma values_of_elem k kvs v : v ∈ values_of k kvs ↔ (k, v) ∈ kvs.
Proof.
  unfold values_of. rewrite list_elem_of_fmap. split.
  - intros ([k' v'] & -> & [Hk Hin]%list_elem_of_filter). simpl in *. by subst.
  - intros Hin. exists (k, v). split; [done|]. by apply list_elem_of_filter.
Qed.

Lemma flatten_item_value_nonempty elem k v :
  Dict.get (flatten_item elem) k = Some v → v ≠ "".
Proof.
  rewrite flatten_item_get.
  destruct (decide _) as [Hin|]; [|done]. intros [= <-].
  apply list_elem_of_fmap in Hin as ([k' v0] & -> & Hin). simpl.
  apply values_of_elem in Hin as Hv.
  destruct (values_of k' (iter_leaves elem "")) as [|x l] eqn:Hvals.
  { by apply elem_of_nil in Hv. }
  simpl. apply join_nonempty.
  apply (iter_leaves_value_nonempty elem "" k' x).
  apply values_of_elem. rewrite Hvals. left.
Qed.

Lemma flatten_item_key_root elem k :
  k ∈ Dict.keys (flatten_item elem) → ∃ rest, k = tag elem +:+ rest.
Proof.
  rewrite flatten_item_keys, elem_of_dedup_first.
  intros ([k' v] & -> & Hin)%list_elem_of_fmap.
  by apply iter_leaves_key_prefix in Hin.
Qed.

(** * The claims *)

(** ** Composite keys *)

(** C1 (as amended): the record root's own tag is part of every composite
    key.  Flattening [<offer><seller><name>Acme</name></seller></offer>]
    gives the single field [offer_seller_name = Acme], and every key of a
    flat row begins with the tag of the flattened element. *)
Theorem C1_root_tag_in_keys :
  flatten_item offer_doc = [("offer_seller_name", "Acme")]
  ∧ ∀ elem, Forall (λ k, ∃ rest, k = tag elem +:+ rest)
              (Dict.keys (flatten_item elem)).
Proof.
  split; [by vm_compute|].
  intros elem. apply Forall_forall. intros k. apply flatten_item_key_root.
Qed.

(** C1 as stated fails: the row of the sample record has no key
    [seller_name]. *)
Lemma C1_seller_name_absent :
  ¬ (Dict.get (flatten_item offer_doc) "seller_name" = Some "Acme").
Proof. by vm_compute. Qed.

(** C6: flattening [<price currency="USD">9.99</price>] gives exactly the
    fields [price@currency = USD] and [price = 9.99]; in general a filled
    attribute is yielded under prefix, tag, [@] and its name, and a
    childless element with non-empty trimmed text yields that text under
    prefix and tag. *)
Theorem C6_attribute_and_text :
  flatten_item price_doc = [("price@currency", "USD"); ("price", "9.99")]
  ∧ (∀ elem prefix a val,
       (a, val) ∈ attrib elem → PyStr.strip val ≠ "" →
       (prefix +:+ tag elem +:+ "@" +:+ a, PyStr.strip val)
         ∈ iter_leaves elem prefix)
  ∧ (∀ elem prefix s,
       children elem = [] → text elem = Some s → PyStr.strip s ≠ "" →
       (prefix +:+ tag elem, PyStr.strip s) ∈ iter_leaves elem prefix).
Proof.
  split; [by vm_compute|]. split.
  - intros elem prefix a val Hin Hne. apply iter_leaves_elem. left.
    apply attr_fields_elem. eauto 6.
  - intros elem prefix s Hcs Htx Hne. apply iter_leaves_elem. right. left.
    assert (leaf_text (text elem) = PyStr.strip s) as ->.
    { rewrite Htx. simpl. destruct (decide (s = "")) as [->|]; [|done].
      by vm_compute in Hne. }
    done.
Qed.

Lemma C6_attribute_and_text_witness :
  ("price@currency", "USD") ∈ iter_leaves price_doc ""
  ∧ ("price", "9.99") ∈ iter_leaves price_doc "".
Proof.
  split.
  - apply (proj1 (proj2 C6_attribute_and_text) price_doc "" "currency" "USD").
    + left.
    + by vm_compute.
  - apply (proj2 (proj2 C6_attribute_and_text) price_doc "" "9.99").
    + reflexivity.
    + reflexivity.
    + by vm_compute.
Defined.

(** C5: the values yielded under one key are merged into one value: kept
    in first-seen order, exact duplicates removed with the first occurrence
    kept, the rest joined with [" | "]; no key occurs twice in the row;
    three [image] children with texts a, b, a give ["a | b"]. *)
Theorem C5_merge_first_seen :
  (∀ elem k,
     k ∈ (iter_leaves elem "").*1 →
     Dict.get (flatten_item elem) k
     = Some (PyStr.join " | "
               (dedup_first (values_of k (iter_leaves elem "")))))
  ∧ (∀ elem, NoDup (Dict.keys (flatten_item elem)))
  ∧ flatten_item images_doc = [("item_image", "a | b")].
Proof.
  split; [|split].
  - intros elem k Hin. rewrite flatten_item_get. by rewrite decide_True.
  - intros elem. rewrite flatten_item_keys. apply NoDup_dedup_first.
  - by vm_compute.
Qed.

Lemma C5_merge_first_seen_witness :
  Dict.get (flatten_item images_doc) "item_image" = Some "a | b".
Proof.
  apply (proj1 C5_merge_first_seen images_doc "item_image").
  vm_compute. left.
Defined.

(** C10: no value of a flat row is the empty string; an element without
    attributes and children whose text is missing or whitespace only
    flattens to the empty row. *)
Theorem C10_values_nonempty :
  (∀ elem k v, Dict.get (flatten_item elem) k = Some v → v ≠ "")
  ∧ (∀ elem,
       attrib elem = [] → children elem = [] →
       (∀ s, text elem = Some s → all_space s = true) →
       flatten_item elem = []).
Proof.
  split; [apply flatten_item_value_nonempty|].
  intros [tg at_ tx cs]; simpl. intros -> -> Htx.
  assert (leaf_text tx = "") as Hleaf.
  { destruct tx as [s|]; simpl; [|done].
    destruct (decide (s = "")); [done|]. apply strip_empty_iff. auto. }
  unfold flatten_item. cbn [iter_leaves tag attrib text children].
  rewrite Hleaf. done.
Qed.

Lemma C10_values_nonempty_witness :
  "9.99" ≠ "" ∧ flatten_item blank_doc = [].
Proof.
  split.
  - apply (proj1 C10_values_nonempty price_doc "price" "9.99"). reflexivity.
  - apply (proj2 C10_values_nonempty blank_doc); [reflexivity..|].
    intros s [= <-]. reflexivity.
Defined.

(** ** Blank attributes *)

Lemma attr_fields_drop_blank prefix tg l1 a val l2 :
  all_space val = true →
  attr_fields prefix tg (l1 ++ (a, val) :: l2)
  = attr_fields prefix tg (l1 ++ l2).
Proof.
  intros Hblank%strip_empty_iff. unfold attr_fields.
  rewrite !flat_map_app. simpl. rewrite decide_True by done. done.
Qed.

Lemma dict_value_unique {V} (d : list (string * V)) k v v' :
  NoDup (Dict.keys d) → (k, v) ∈ d → (k, v') ∈ d → v = v'.
Proof.
  intros Hnd Hv Hv'. apply (elem_get _ _ _ Hnd) in Hv, Hv'. congruence.
Qed.

Lemma own_attr_key_absent elem a val :
  (a, val) ∈ attrib elem → all_space val = true →
  NoDup (Dict.keys (attrib elem)) → tag elem ≠ "" →
  tag elem +:+ "@" +:+ a ∉ (iter_leaves elem "").*1.
Proof.
  intros Hin Hblank%strip_empty_iff Hnd Htag
    ([k v] & Hk & [Hattr|[Hleaf|Hchild]]%iter_leaves_elem)%list_elem_of_fmap;
    simpl in Hk; subst k.
  - apply attr_fields_elem in Hattr as (a' & val' & Hin' & Hne & Heq & _).
    change ("" +:+ ?x) with x in Heq.
    apply (inj (String.append _)), (inj (String.append _)) in Heq. subst a'.
    by rewrite (dict_value_unique _ _ _ _ Hnd Hin Hin') in Hblank.
  - destruct Hleaf as (_ & _ & Heq & _).
    change ("" +:+ ?x) with x in Heq.
    rewrite <- (string_app_nil_r (tag elem)) in Heq at 2.
    by apply (inj (String.append _)) in Heq.
  - destruct Hchild as (child & Hc & Hkv).
    apply iter_leaves_key_prefix in Hkv as [rest Heq].
    unfold child_prefix in Heq. rewrite decide_False in Heq by done.
    change ("" +:+ ?x) with x in Heq. rewrite !string_app_assoc in Heq.
    by apply (inj (String.append _)) in Heq.
Qed.

Lemma attr_fields_filter_blank prefix tg attrs :
  attr_fields prefix tg (filter (λ av, PyStr.strip av.2 ≠ "") attrs)
  = attr_fields prefix tg attrs.
Proof.
  unfold attr_fields. induction attrs as [|[a val] attrs IH]; [done|].
  destruct (decide (PyStr.strip val = "")) as [Hblank|Hfilled].
  - rewrite filter_cons_False by (simpl; tauto). cbn [flat_map].
    by rewrite decide_True.
  - rewrite filter_cons_True by done. cbn [flat_map]. by rewrite IH.
Qed.

Lemma drop_blank_attrs_leaves elem :
  ∀ prefix, iter_leaves (drop_blank_attrs elem) prefix
            = iter_leaves elem prefix.
Proof.
  induction elem as [tg at_ tx cs IH] using Element_nested_ind.
  intros prefix. cbn [drop_blank_attrs tag attrib text children].
  cbn [iter_leaves tag attrib text children].
  rewrite attr_fields_filter_blank. f_equal.
  destruct cs as [|c cs]; [done|].
  assert (∀ q l, Forall (λ e, ∀ p, iter_leaves (drop_blank_attrs e) p
                                   = iter_leaves e p) l →
    flat_map (λ child, iter_leaves child q) (map drop_blank_attrs l)
    = flat_map (λ child, iter_leaves child q) l) as Hmap.
  { intros q l Hl. induction Hl as [|x l Hx Hl IHl]; [done|].
    cbn [map flat_map]. by rewrite Hx, IHl. }
  exact (Hmap _ _ IH).
Qed.

(** C7 (as amended): an attribute whose value is empty or whitespace only
    yields no field, wherever its element sits: the yielded fields are
    those of the element without that attribute, and the flat row of a
    record is the row of the same record with every such attribute
    removed, at any depth.  A key is therefore absent from the row exactly
    when nothing else yields it; for the flattened element itself
    (attribute names unique, tag not empty) the key made of its tag, [@]
    and the attribute name is absent; and no key of any row carries the
    empty string. *)
Theorem C7_blank_attribute_dropped :
  (∀ tg l1 a val l2 tx cs prefix,
     all_space val = true →
     iter_leaves (mkElement tg (l1 ++ (a, val) :: l2) tx cs) prefix
     = iter_leaves (mkElement tg (l1 ++ l2) tx cs) prefix)
  ∧ (∀ elem, flatten_item (drop_blank_attrs elem) = flatten_item elem)
  ∧ (∀ elem k,
       Dict.get (flatten_item elem) k = None
       ↔ k ∉ (iter_leaves (drop_blank_attrs elem) "").*1)
  ∧ (∀ elem a val,
       (a, val) ∈ attrib elem → all_space val = true →
       NoDup (Dict.keys (attrib elem)) → tag elem ≠ "" →
       Dict.get (flatten_item elem) (tag elem +:+ "@" +:+ a) = None)
  ∧ (∀ elem k, Dict.get (flatten_item elem) k ≠ Some "").
Proof.
  split; [|split; [|split; [|split]]].
  - intros tg l1 a val l2 tx cs prefix Hblank.
    cbn [iter_leaves tag attrib text children].
    by rewrite attr_fields_drop_blank.
  - intros elem. unfold flatten_item. by rewrite drop_blank_attrs_leaves.
  - intros elem k. rewrite drop_blank_attrs_leaves, flatten_item_get.
    by destruct (decide _).
  - intros elem a val Hin Hblank Hnd Htag. rewrite flatten_item_get.
    rewrite decide_False; [done|]. by eapply own_attr_key_absent.
  - intros elem k Hget. by apply flatten_item_value_nonempty in Hget.
Qed.

Lemma C7_blank_attribute_dropped_witness :
  iter_leaves blank_attr_doc "" = [("img@src", "x.png")]
  ∧ Dict.get (flatten_item blank_attr_doc) "img@alt" = None.
Proof.
  split.
  - etrans.
    + apply (proj1 C7_blank_attribute_dropped "img" [] "alt" "  "
               [("src", "x.png")] None [] "").
      reflexivity.
    + reflexivity.
  - apply (proj1 (proj2 (proj2 (proj2 C7_blank_attribute_dropped)))
             blank_attr_doc "alt" "  ").
    + left.
    + reflexivity.
    + vm_compute. repeat constructor; set_solver.
    + discriminate.
Defined.

(** C7 as stated fails for an element below the record root: the first
    [img] of the sample record has a blank [src], yet the key
    [item_img@src] is in the row, supplied by its sibling. *)
Lemma C7_blank_key_supplied_by_sibling :
  mkElement "img" [("src", "  ")] None [] ∈ children nested_blank_doc
  ∧ PyStr.strip "  " = ""
  ∧ ¬ (Dict.get (flatten_item nested_blank_doc) "item_img@src" = None)
  ∧ flatten_item nested_blank_doc = [("item_img@src", "a")].
Proof.
  split; [left|]. split; [reflexivity|]. split; by vm_compute.
Qed.

(** ** Item detection *)

Lemma tag_count_pairs root p t :
  p ∈ iter root → (0 < tag_count t p)%nat →
  (p, (t, tag_count t p)) ∈ pairs root.
Proof.
  intros Hp Hpos. apply pairs_elem. split; [done|]. split; [|done].
  unfold tag_count in Hpos.
  destruct (filter (λ c, tag c = t) (children p)) as [|child l] eqn:Hf.
  { simpl in Hpos. lia. }
  assert (child ∈ filter (λ c, tag c = t) (children p)) as Hin
    by (rewrite Hf; left).
  apply list_elem_of_filter in Hin as [Ht Hin]. eauto.
Qed.

(** C3: when some parent has a repeated direct-child tag, the returned
    sequence is not empty, its length is the largest same-tag direct-child
    count over all parents, and it is the subsequence, in source order, of
    the children of one parent that carry the returned tag. *)
Theorem C3_detect_largest_group root :
  (∃ p t, p ∈ iter root ∧ (2 ≤ tag_count t p)%nat) →
  (detect_items root).1 ≠ []
  ∧ length (detect_items root).1 = max_repeat root
  ∧ (∀ p t, p ∈ iter root →
       (tag_count t p ≤ length (detect_items root).1)%nat)
  ∧ ∃ parent, parent ∈ iter root
      ∧ (detect_items root).1
        = filter (λ c, tag c = (detect_items root).2) (children parent).
Proof.
  intros (p0 & t0 & Hp0 & Hrep).
  assert ((p0, (t0, tag_count t0 p0)) ∈ pairs root) as Hin0
    by (apply tag_count_pairs; [done|lia]).
  destruct (first_max_split (λ x : Element * (string * nat), x.2.2)
    (pairs root)) as (l1 & [p [t c]] & l2 & Heq & H1 & H2).
  { intros Hnil. rewrite Hnil in Hin0. by apply elem_of_nil in Hin0. }
  simpl in H1, H2.
  destruct (detect_first_max root l1 p t c l2 Heq H1 H2) as [_ ->]. simpl.
  assert ((p, (t, c)) ∈ pairs root) as Hin
    by (rewrite Heq; apply elem_of_app; right; left).
  apply pairs_elem in Hin as (Hp & _ & Hc). unfold tag_count in Hc.
  assert (Hmax : ∀ x, x ∈ pairs root → (x.2.2 ≤ c)%nat).
  { intros x. rewrite Heq, elem_of_app, elem_of_cons.
    rewrite Forall_forall in H1, H2. intros [Hx|[->|Hx]].
    - apply H1 in Hx. lia.
    - simpl. lia.
    - by apply H2. }
  rewrite <- Hc. repeat split.
  - apply Hmax in Hin0. simpl in Hin0. intros Hnil.
    rewrite Hnil in Hc. simpl in Hc. lia.
  - symmetry. apply max_list_attained.
    + apply list_elem_of_fmap. exists (p, (t, c)). split; [done|].
      rewrite Heq. apply elem_of_app. right. left.
    + apply Forall_fmap, Forall_forall. exact Hmax.
  - intros p' t' Hp'. destruct (decide (0 < tag_count t' p')%nat) as [Hpos|];
      [|lia].
    apply (Hmax (p', (t', tag_count t' p'))). by apply tag_count_pairs.
  - exists p. done.
Qed.

Lemma C3_detect_largest_group_witness :
  length (detect_items images_doc).1 = 3.
Proof.
  apply (proj1 (proj2 (C3_detect_largest_group images_doc
    (ex_intro _ images_doc (ex_intro _ "image"
       (conj (iter_self images_doc) (le_S _ _ (le_n 2)))))))).
Defined.

(** C4: the triples are met parents first, in document order, and within
    one parent in the order of the first child of each tag; when the
    largest count is reached by several of them the first one met is kept,
    because the tracked best is replaced only by a strictly greater
    count. *)
Theorem C4_first_of_ties_wins root l1 p t c l2 :
  pairs root = l1 ++ (p, (t, c)) :: l2 →
  Forall (λ x : Element * (string * nat), (x.2.2 < c)%nat) l1 →
  Forall (λ x : Element * (string * nat), (x.2.2 ≤ c)%nat) l2 →
  find_best root = (c, Some (p, t))
  ∧ detect_items root = (filter (λ ch, tag ch = t) (children p), t).
Proof. apply detect_first_max. Qed.

Lemma C4_first_of_ties_wins_witness :
  detect_items tie_doc = ([leaf "i" "1"; leaf "i" "2"], "i").
Proof.
  apply (C4_first_of_ties_wins tie_doc
           [(tie_doc, ("g", 1)); (tie_doc, ("h", 1))]
           (node "g" [leaf "i" "1"; leaf "i" "2"]) "i" 2
           [(node "h" [leaf "j" "3"; leaf "j" "4"], ("j", 2))]).
  - reflexivity.
  - repeat constructor.
  - repeat constructor.
Defined.

(** What the detector returns on a tree without any repeated direct-child
    tag: the first child of the root alone, under that child's tag. *)
Lemma detect_items_no_repeat root c cs :
  children root = c :: cs →
  (∀ p t, p ∈ iter root → (tag_count t p ≤ 1)%nat) →
  detect_items root = ([c], tag c).
Proof.
  intros Hcs Hno.
  assert (∃ l2, pairs root
    = [] ++ (root, (tag c, tag_count (tag c) root)) :: l2) as [l2 Heq].
  { unfold pairs. destruct root as [tg at_ tx cs0]. simpl in Hcs. subst cs0.
    simpl. eauto. }
  assert ((0 < tag_count (tag c) root)%nat) as Hpos.
  { apply (pairs_count_pos root (root, (tag c, tag_count (tag c) root))).
    rewrite Heq. left. }
  pose proof (Hno root (tag c) (iter_self root)) as Hle.
  destruct (detect_first_max root [] root (tag c) _ l2 Heq) as [_ ->].
  { constructor. }
  { apply Forall_forall. intros [p [t n]] Hin. simpl.
    assert ((p, (t, n)) ∈ pairs root) as Hin' by (rewrite Heq; by right).
    apply pairs_elem in Hin' as (Hp & _ & ->). specialize (Hno p t Hp). lia. }
  f_equal. unfold tag_count in Hle. rewrite Hcs in Hle |- *.
  rewrite filter_cons_True in Hle |- * by done. f_equal.
  simpl in Hle. destruct (filter _ cs); [done|simpl in Hle; lia].
Qed.

(** C2 fails on the code: for a root with the children [a] and [b] the
    detector returns the first child alone, under the tag [a], and not the
    two children under the root's tag. *)
Theorem C2_detect_first_child_only :
  detect_items mixed_doc = ([leaf "a" "1"], "a")
  ∧ detect_items mixed_doc ≠ (children mixed_doc, tag mixed_doc).
Proof. split; [by vm_compute|]. by vm_compute. Qed.

(** ** Forced item tag *)

(** C8: with a forced tag that no element carries, the warning is printed
    and the items are those of automatic detection; with a forced tag that
    some element carries, the items are all elements with that tag, in
    document order, and nothing is printed. *)
Theorem C8_forced_tag force_tag root :
  force_tag ≠ "" →
  ((∀ e, e ∈ iter root → tag e ≠ force_tag) →
     select_items force_tag root
     = ((detect_items root).1, [warning force_tag]))
  ∧ ((∃ e, e ∈ iter root ∧ tag e = force_tag) →
     select_items force_tag root
     = (filter (λ e, tag e = force_tag) (iter root), [])).
Proof.
  intros Hforce. unfold select_items. rewrite decide_False by done. split.
  - intros Hnone.
    destruct (filter (λ e, tag e = force_tag) (iter root)) as [|e l] eqn:Hf;
      [done|].
    assert (e ∈ filter (λ e, tag e = force_tag) (iter root)) as Hin
      by (rewrite Hf; left).
    apply list_elem_of_filter in Hin as [Ht Hin]. by apply Hnone in Hin.
  - intros (e & Hin & Ht).
    destruct (filter (λ e, tag e = force_tag) (iter root)) as [|e' l] eqn:Hf;
      [|done].
    assert (e ∈ filter (λ e, tag e = force_tag) (iter root)) as Hin'
      by by apply list_elem_of_filter.
    rewrite Hf in Hin'. by apply elem_of_nil in Hin'.
Qed.

Lemma C8_forced_tag_witness :
  select_items "zz" mixed_doc
  = ([leaf "a" "1"],
     ["UWAGA: Nie znaleziono tagu 'zz', wykrywam automatycznie..."])
  ∧ select_items "j" tie_doc = ([leaf "j" "3"; leaf "j" "4"], []).
Proof.
  split.
  - apply (proj1 (C8_forced_tag "zz" mixed_doc ltac:(discriminate))).
    intros e He. vm_compute in He.
    repeat (apply elem_of_cons in He as [->|He]; [discriminate|]).
    by apply elem_of_nil in He.
  - apply (proj2 (C8_forced_tag "j" tie_doc ltac:(discriminate))).
    exists (leaf "j" "3"). split; [|reflexivity].
    vm_compute. do 5 right. left.
Defined.

(** ** Header set and padding *)

Lemma render_row_lookup headers (r : list (string * string)) i k :
  headers !! i = Some k →
  render_row headers r !! i = Some (default "" (Dict.get r k)).
Proof.
  intros Hk. unfold render_row.
  change (map ?f headers) with (f <$> headers).
  by rewrite list_lookup_fmap, Hk.
Qed.

(** C9: the header list is the deduplicated union of the rows' keys in
    first-seen order, rows scanned in order and keys in each row's order;
    the table handed to the writer has one record per row in header order,
    with the empty string where the row lacks the key and the row's value
    where it has it; rows with keys a, b and b, c give the header a, b, c
    with an empty c cell in the first row and an empty a cell in the
    second. *)
Theorem C9_header_union :
  (∀ rows, collect_headers rows = dedup_first (concat (map Dict.keys rows)))
  ∧ (∀ rows, rows ≠ [] →
       write_csv rows
       = collect_headers rows :: map (render_row (collect_headers rows)) rows)
  ∧ (∀ headers (r : list (string * string)) i k,
       headers !! i = Some k → Dict.get r k = None →
       render_row headers r !! i = Some "")
  ∧ (∀ headers (r : list (string * string)) i k v,
       headers !! i = Some k → Dict.get r k = Some v →
       render_row headers r !! i = Some v)
  ∧ write_csv [row_ab; row_bc]
    = [["a"; "b"; "c"]; ["1"; "2"; ""]; [""; "3"; "4"]].
Proof.
  split; [apply collect_headers_dedup_first|].
  split; [by intros [|r rows]|].
  split; [|split].
  - intros headers r i k Hk Hget.
    by rewrite (render_row_lookup _ _ _ _ Hk), Hget.
  - intros headers r i k v Hk Hget.
    by rewrite (render_row_lookup _ _ _ _ Hk), Hget.
  - by vm_compute.
Qed.

Lemma C9_header_union_witness :
  write_csv [row_ab; row_bc]
  = collect_headers [row_ab; row_bc]
    :: map (render_row (collect_headers [row_ab; row_bc])) [row_ab; row_bc]
  ∧ render_row ["a"; "b"; "c"] row_ab !! 2 = Some ""
  ∧ render_row ["a"; "b"; "c"] row_bc !! 1 = Some "3".
Proof.
  split; [|split].
  - apply (proj1 (proj2 C9_header_union) [row_ab; row_bc]). discriminate.
  - apply (proj1 (proj2 (proj2 C9_header_union)) ["a"; "b"; "c"] row_ab 2 "c");
      reflexivity.
  - apply (proj1 (proj2 (proj2 (proj2 C9_header_union)))
             ["a"; "b"; "c"] row_bc 1 "b" "3"); reflexivity.
Defined.

(** * Further properties of the code *)

(** ** The detector *)

Lemma iter_children root :
  ∀ p c, p ∈ iter root → c ∈ children p → c ∈ iter root.
Proof.
  induction root as [tg at_ tx cs IH] using Element_nested_ind.
  intros p c Hp Hc. cbn [iter children] in *. right.
  apply elem_of_flat_map. apply elem_of_cons in Hp as [->|Hp].
  - exists c. split; [done|apply iter_self].
  - apply elem_of_flat_map in Hp as (c' & Hc' & Hp).
    exists c'. split; [done|]. rewrite Forall_forall in IH. by eapply IH.
Qed.

Lemma pairs_childless root : children root = [] → pairs root = [].
Proof. destruct root as [tg at_ tx cs]. simpl. by intros ->. Qed.

(** The two ways the detector answers: the fallback, taken for a root
    without children, or the children of a parent that carry a tag whose
    count no other count exceeds. *)
Lemma detect_items_cases root :
  (children root = [] ∧ detect_items root = ([], tag root))
  ∨ (∃ p t, p ∈ iter root ∧ (0 < tag_count t p)%nat
       ∧ detect_items root = (filter (λ c, tag c = t) (children p), t)
       ∧ ∀ x, x ∈ pairs root → (x.2.2 ≤ tag_count t p)%nat).
Proof.
  destruct (children root) as [|c cs] eqn:Hcs.
  - left. split; [done|]. unfold detect_items.
    rewrite (proj2 (find_best_None root) Hcs). by rewrite Hcs.
  - right.
    assert ((root, (tag c, tag_count (tag c) root)) ∈ pairs root) as Hin0.
    { apply pairs_elem. split; [apply iter_self|]. split; [|done].
      exists c. rewrite Hcs. split; [left|done]. }
    destruct (first_max_split (λ x : Element * (string * nat), x.2.2)
      (pairs root)) as (l1 & [p [t n]] & l2 & Heq & H1 & H2).
    { intros Hnil. rewrite Hnil in Hin0. by apply elem_of_nil in Hin0. }
    simpl in H1, H2.
    destruct (detect_first_max root l1 p t n l2 Heq H1 H2) as [_ Hdet].
    assert ((p, (t, n)) ∈ pairs root) as Hin
      by (rewrite Heq; apply elem_of_app; right; left).
    pose proof (pairs_count_pos _ _ Hin) as Hpos. simpl in Hpos.
    apply pairs_elem in Hin as (Hp & _ & ->).
    exists p, t. repeat split; [done..|].
    intros x. rewrite Heq, elem_of_app, elem_of_cons.
    rewrite Forall_forall in H1, H2. intros [Hx|[->|Hx]].
    + apply H1 in Hx. lia.
    + simpl. lia.
    + by apply H2.
Qed.

Lemma detect_items_nil_iff root :
  (detect_items root).1 = [] ↔ children root = [].
Proof.
  destruct (detect_items_cases root)
    as [[Hcs Hdet]|(p & t & Hp & Hpos & Hdet & _)]; rewrite Hdet; simpl.
  - done.
  - unfold tag_count in Hpos.
    assert (filter (λ c, tag c = t) (children p) ≠ []) as Hne.
    { intros Hnil. rewrite Hnil in Hpos. simpl in Hpos. lia. }
    assert (children root ≠ []) as Hroot.
    { intros Hcs. pose proof (pairs_childless root Hcs) as Hnil.
      assert ((p, (t, tag_count t p)) ∈ pairs root) as Hin
        by by apply tag_count_pairs.
      rewrite Hnil in Hin. by apply elem_of_nil in Hin. }
    by split.
Qed.

(** X1: the detector returns no item exactly when the root has no
    children, and then it reports the root's own tag. *)
Theorem X1_detect_empty_iff_childless root :
  ((detect_items root).1 = [] ↔ children root = [])
  ∧ (children root = [] → detect_items root = ([], tag root)).
Proof.
  destruct (detect_items_cases root)
    as [[Hcs Hdet]|(p & t & Hp & Hpos & Hdet & _)].
  - rewrite Hdet. by split.
  - rewrite Hdet. simpl. unfold tag_count in Hpos.
    assert (filter (λ c, tag c = t) (children p) ≠ []) as Hne.
    { intros Hnil. rewrite Hnil in Hpos. simpl in Hpos. lia. }
    assert (children root ≠ []) as Hroot.
    { intros Hcs. pose proof (pairs_childless root Hcs) as Hnil.
      assert ((p, (t, tag_count t p)) ∈ pairs root) as Hin
        by by apply tag_count_pairs.
      rewrite Hnil in Hin. by apply elem_of_nil in Hin. }
    split; [by split|done].
Qed.

Lemma X1_detect_empty_iff_childless_witness :
  detect_items blank_doc = ([], "note").
Proof.
  apply (proj2 (X1_detect_empty_iff_childless blank_doc)). reflexivity.
Defined.

Lemma detect_items_elem root item :
  item ∈ (detect_items root).1 →
  tag item = (detect_items root).2
  ∧ (∃ parent, parent ∈ iter root ∧ item ∈ children parent)
  ∧ item ∈ iter root.
Proof.
  destruct (detect_items_cases root)
    as [[Hcs Hdet]|(p & t & Hp & Hpos & Hdet & _)]; rewrite Hdet; simpl.
  - by intros ?%elem_of_nil.
  - intros [Ht Hin]%list_elem_of_filter.
    split; [done|]. split; [by exists p|]. by eapply iter_children.
Qed.

(** X2: every item the detector returns carries the tag it reports, is a
    direct child of an element of the tree, and is itself an element of
    the tree. *)
Theorem X2_detect_items_in_tree root :
  Forall (λ item, tag item = (detect_items root).2
                  ∧ (∃ parent, parent ∈ iter root ∧ item ∈ children parent)
                  ∧ item ∈ iter root)
    (detect_items root).1.
Proof. apply Forall_forall. intros item. apply detect_items_elem. Qed.

(** X3: for every tree, with or without a repeated tag, the number of
    returned items is the largest same-tag direct-child count over all
    parents (zero for a root without children, one when no tag repeats). *)
Theorem X3_detect_length_max_repeat root :
  length (detect_items root).1 = max_repeat root.
Proof.
  unfold max_repeat.
  destruct (detect_items_cases root)
    as [[Hcs Hdet]|(p & t & Hp & Hpos & Hdet & Hmax)]; rewrite Hdet; simpl.
  - by rewrite (pairs_childless root Hcs).
  - symmetry. apply max_list_attained.
    + apply list_elem_of_fmap. exists (p, (t, tag_count t p)).
      split; [done|]. by apply tag_count_pairs.
    + apply Forall_fmap, Forall_forall. exact Hmax.
Qed.

(** X4: on a tree in which no parent has two children with one tag, a
    root with children yields its first child alone, reported under that
    child's tag. *)
Theorem X4_detect_without_repeat root c cs :
  children root = c :: cs →
  (∀ p t, p ∈ iter root → (tag_count t p ≤ 1)%nat) →
  detect_items root = ([c], tag c).
Proof. apply detect_items_no_repeat. Qed.

Lemma X4_detect_without_repeat_witness :
  detect_items offer_doc = ([node "seller" [leaf "name" "Acme"]], "seller").
Proof.
  apply (X4_detect_without_repeat offer_doc
           (node "seller" [leaf "name" "Acme"]) []).
  - reflexivity.
  - intros p t Hp. vm_compute in Hp.
    repeat (apply elem_of_cons in Hp as [->|Hp];
      [unfold tag_count; simpl;
       repeat (rewrite filter_cons; destruct (decide _)); simpl; lia|]).
    by apply elem_of_nil in Hp.
Defined.

(** ** Item selection *)

Lemma filter_nil_iff {A} (P : A → Prop) `{∀ x, Decision (P x)} (l : list A) :
  filter P l = [] ↔ ∀ x, x ∈ l → ¬ P x.
Proof.
  split.
  - intros Hnil x Hx HP.
    assert (x ∈ filter P l) as Hin by by apply list_elem_of_filter.
    rewrite Hnil in Hin. by apply elem_of_nil in Hin.
  - intros Hall. destruct (filter P l) as [|x l'] eqn:Hf; [done|].
    assert (x ∈ filter P l) as Hin by (rewrite Hf; left).
    apply list_elem_of_filter in Hin as [HP Hin]. by apply Hall in Hin.
Qed.

(** X5: whatever the forced tag, every selected item is an element of the
    parsed tree. *)
Theorem X5_selected_items_in_tree force_tag root :
  Forall (λ item, item ∈ iter root) (select_items force_tag root).1.
Proof.
  assert (Forall (λ item, item ∈ iter root) (detect_items root).1) as Hdet.
  { apply Forall_forall. intros item Hin. by apply detect_items_elem. }
  unfold select_items. destruct (decide (force_tag = "")); [done|].
  destruct (filter (λ e, tag e = force_tag) (iter root)) as [|e l] eqn:Hf;
    [done|].
  simpl. rewrite <- Hf. apply Forall_forall.
  by intros item [_ Hin]%list_elem_of_filter.
Qed.

(** X6: a warning is printed exactly when a non-empty forced tag is
    carried by no element; nothing is printed for an empty forced tag or a
    forced tag some element carries, and at most one line is ever
    printed. *)
Theorem X6_warning_iff_unmatched force_tag root :
  ((select_items force_tag root).2 = [warning force_tag]
   ↔ force_tag ≠ "" ∧ ∀ e, e ∈ iter root → tag e ≠ force_tag)
  ∧ ((select_items force_tag root).2 = []
     ↔ force_tag = "" ∨ ∃ e, e ∈ iter root ∧ tag e = force_tag).
Proof.
  unfold select_items. destruct (decide (force_tag = "")) as [->|Hne]; simpl.
  { split; split; try done; [|by left]. by intros [? _]. }
  destruct (filter (λ e, tag e = force_tag) (iter root)) as [|e l] eqn:Hf;
    simpl.
  - pose proof (proj1 (filter_nil_iff _ _) Hf) as Hnone.
    split; split; try done.
    intros [?|(e & Hin & Ht)]; [done|]. by apply Hnone in Hin.
  - assert (e ∈ filter (λ e, tag e = force_tag) (iter root)) as Hin
      by (rewrite Hf; left).
    apply list_elem_of_filter in Hin as [Ht Hin].
    split; split; try done.
    + intros [_ Hnone]. by apply Hnone in Hin.
    + intros _. right. eauto.
Qed.

Lemma X6_warning_iff_unmatched_witness :
  (select_items "zz" mixed_doc).2 = [warning "zz"]
  ∧ (select_items "j" tie_doc).2 = [].
Proof.
  split.
  - apply (proj1 (X6_warning_iff_unmatched "zz" mixed_doc)).
    split; [discriminate|]. intros e He. vm_compute in He.
    repeat (apply elem_of_cons in He as [->|He]; [discriminate|]).
    by apply elem_of_nil in He.
  - apply (proj2 (X6_warning_iff_unmatched "j" tie_doc)).
    right. exists (leaf "j" "3"). split; [|reflexivity].
    vm_compute. do 5 right. left.
Defined.

(** X7: forcing the tag of the root makes the root itself the first
    selected item, without any warning. *)
Theorem X7_forced_root_tag force_tag root :
  force_tag ≠ "" → tag root = force_tag →
  ∃ rest, select_items force_tag root = (root :: rest, []).
Proof.
  intros Hne Ht. unfold select_items. rewrite decide_False by done.
  destruct root as [tg at_ tx cs]. cbn [iter]. simpl in Ht.
  rewrite filter_cons_True by done. eauto.
Qed.

Lemma X7_forced_root_tag_witness :
  ∃ rest, select_items "r" mixed_doc = (mixed_doc :: rest, []).
Proof.
  apply (X7_forced_root_tag "r" mixed_doc); [discriminate|reflexivity].
Defined.

(** ** Trimming *)

Lemma lstrip_starts_clean s : starts_clean (PyStr.lstrip s).
Proof.
  induction s as [|c s IH]; simpl; [done|].
  destruct (PyStr.isspace c) eqn:Hc; [done|]. simpl. done.
Qed.

Lemma lstrip_clean_id s : starts_clean s → PyStr.lstrip s = s.
Proof. destruct s as [|c s]; simpl; [done|]. by intros ->. Qed.

Lemma rstrip_starts_clean s : starts_clean s → starts_clean (PyStr.rstrip s).
Proof.
  destruct s as [|c s]; simpl; [done|]. intros Hc.
  destruct (PyStr.rstrip s); rewrite ?Hc; done.
Qed.

Lemma rstrip_idem s : PyStr.rstrip (PyStr.rstrip s) = PyStr.rstrip s.
Proof.
  induction s as [|c s IH]; simpl; [done|].
  destruct (PyStr.rstrip s) as [|a r] eqn:Hr.
  - destruct (PyStr.isspace c) eqn:Hc; simpl; [done|]. by rewrite Hc.
  - change (PyStr.rstrip (String c (String a r))) with
      (match PyStr.rstrip (String a r) with
       | EmptyString =>
           if PyStr.isspace c then EmptyString else String c EmptyString
       | String a' r' => String c (String a' r')
       end).
    by rewrite IH.
Qed.

Lemma strip_idem s : PyStr.strip (PyStr.strip s) = PyStr.strip s.
Proof.
  unfold PyStr.strip.
  rewrite (lstrip_clean_id (PyStr.rstrip _)).
  - apply rstrip_idem.
  - apply rstrip_starts_clean, lstrip_starts_clean.
Qed.

(** X8: every value the generator yields is trimmed: trimming it again
    changes nothing, so it neither begins nor ends with whitespace. *)
Theorem X8_yielded_values_trimmed elem prefix :
  Forall (λ kv, PyStr.strip kv.2 = kv.2
                ∧ PyStr.lstrip kv.2 = kv.2 ∧ PyStr.rstrip kv.2 = kv.2)
    (iter_leaves elem prefix).
Proof.
  assert (Hstrip : ∀ s, PyStr.strip (PyStr.strip s) = PyStr.strip s
    ∧ PyStr.lstrip (PyStr.strip s) = PyStr.strip s
    ∧ PyStr.rstrip (PyStr.strip s) = PyStr.strip s).
  { intros s. split; [apply strip_idem|]. unfold PyStr.strip. split.
    - apply lstrip_clean_id, rstrip_starts_clean, lstrip_starts_clean.
    - apply rstrip_idem. }
  revert prefix.
  induction elem as [tg at_ tx cs IH] using Element_nested_ind.
  intros prefix. apply Forall_forall. intros [k v] Hin.
  apply iter_leaves_elem in Hin as [Hattr|[Hleaf|Hchild]]; simpl in *.
  - apply attr_fields_elem in Hattr as (a & val & _ & _ & _ & ->). done.
  - destruct Hleaf as (_ & Hne & _ & ->). destruct tx as [s|]; [|done].
    simpl in *. destruct (decide (s = "")); [done|]. done.
  - destruct Hchild as (child & Hc & Hkv). rewrite Forall_forall in IH.
    specialize (IH child Hc (child_prefix prefix tg)).
    rewrite Forall_forall in IH. by apply (IH (k, v)).
Qed.

(** ** The flattener *)

Lemma clear_mixed_text_leaves elem :
  ∀ prefix, iter_leaves (clear_mixed_text elem) prefix
            = iter_leaves elem prefix.
Proof.
  induction elem as [tg at_ tx cs IH] using Element_nested_ind.
  intros prefix. cbn [clear_mixed_text tag attrib text children].
  cbn [iter_leaves tag attrib text children]. f_equal.
  destruct cs as [|c cs]; [done|].
  assert (∀ q l, Forall (λ e, ∀ p, iter_leaves (clear_mixed_text e) p
                                   = iter_leaves e p) l →
    flat_map (λ child, iter_leaves child q) (map clear_mixed_text l)
    = flat_map (λ child, iter_leaves child q) l) as Hmap.
  { intros q l Hl. induction Hl as [|x l Hx Hl IHl]; [done|].
    cbn [map flat_map]. by rewrite Hx, IHl. }
  exact (Hmap _ _ IH).
Qed.

(** X9: the text of an element that has children never reaches the row,
    at any depth: removing all such texts from the record leaves the
    yielded fields and the flat row unchanged. *)
Theorem X9_mixed_text_ignored elem :
  (∀ prefix, iter_leaves (clear_mixed_text elem) prefix
             = iter_leaves elem prefix)
  ∧ flatten_item (clear_mixed_text elem) = flatten_item elem.
Proof.
  split; [apply clear_mixed_text_leaves|].
  unfold flatten_item. by rewrite clear_mixed_text_leaves.
Qed.

Lemma dedup_first_NoDup l : NoDup l → dedup_first l = l.
Proof.
  induction 1 as [|x l Hx Hl IH]; simpl; [done|]. rewrite IH. f_equal.
  apply filter_all. intros y Hy ->. done.
Qed.

Lemma values_of_unique kvs k v :
  NoDup kvs.*1 → (k, v) ∈ kvs → values_of k kvs = [v].
Proof.
  unfold values_of. induction kvs as [|[k0 v0] kvs IH]; simpl.
  { by intros _ ?%elem_of_nil. }
  intros [Hk Hnd]%NoDup_cons [[= -> ->]|Hin]%elem_of_cons.
  - rewrite filter_cons_True by done. simpl. f_equal.
    rewrite (proj2 (filter_nil_iff _ _)); [done|].
    intros [k' v'] Hin' Heq. simpl in Heq. subst k'.
    apply Hk. by apply (list_elem_of_fmap_2 fst) in Hin'.
  - rewrite filter_cons_False; [by apply IH|].
    simpl. intros ->. apply Hk. by apply (list_elem_of_fmap_2 fst) in Hin.
Qed.

(** X10: when the generator yields every key once, nothing is merged: the
    flat row is the list of yielded fields, in the order they are
    yielded. *)
Theorem X10_no_merge_without_duplicates elem :
  NoDup (iter_leaves elem "").*1 →
  flatten_item elem = iter_leaves elem "".
Proof.
  intros Hnd. rewrite flatten_item_spec, dedup_first_NoDup by done.
  etrans; [|symmetry; apply (dict_keys_get "" _ Hnd)]. unfold Dict.keys.
  apply map_ext_in. intros k Hin%list_elem_of_In. f_equal.
  apply list_elem_of_fmap in Hin as ([k' v] & -> & Hin). simpl.
  rewrite (values_of_unique _ _ _ Hnd Hin), (elem_get _ _ _ Hnd Hin). done.
Qed.

Lemma X10_no_merge_without_duplicates_witness :
  flatten_item price_doc = iter_leaves price_doc "".
Proof.
  apply (X10_no_merge_without_duplicates price_doc).
  vm_compute. repeat constructor; set_solver.
Defined.

(** X11: the keys of a flat row are the yielded keys, each once, in the
    order of their first yield; a key that is never yielded is absent
    from the row. *)
Theorem X11_row_keys_first_yield elem :
  Dict.keys (flatten_item elem) = dedup_first (iter_leaves elem "").*1
  ∧ (∀ k, Dict.get (flatten_item elem) k = None
          ↔ k ∉ (iter_leaves elem "").*1).
Proof.
  split; [apply flatten_item_keys|].
  intros k. rewrite flatten_item_get. by destruct (decide _).
Qed.

(** ** The output table *)

Lemma length_render_row headers (r : list (string * string)) :
  length (render_row headers r) = length headers.
Proof. unfold render_row. apply length_map. Qed.

Lemma collect_headers_elem rows k :
  k ∈ collect_headers rows ↔ ∃ r, r ∈ rows ∧ k ∈ Dict.keys r.
Proof.
  rewrite collect_headers_dedup_first, elem_of_dedup_first.
  rewrite list_elem_of_In, in_concat. split.
  - intros (ks & Hks%list_elem_of_In & Hk%list_elem_of_In).
    apply list_elem_of_fmap in Hks as (r & -> & Hr). eauto.
  - intros (r & Hr & Hk). exists (Dict.keys r).
    split; apply list_elem_of_In; [|done].
    by apply (list_elem_of_fmap_2 Dict.keys).
Qed.

Lemma length_write_csv rows : length (write_csv rows) = S (length rows).
Proof. destruct rows as [|r rows]; simpl; [done|]. by rewrite length_map. Qed.

(** X12: the table always starts with a header record and has one more
    record per row, also for no row at all; every record has as many
    cells as the header. *)
Theorem X12_table_shape rows :
  length (write_csv rows) = S (length rows)
  ∧ ∃ header, head (write_csv rows) = Some header
      ∧ Forall (λ rec, length rec = length header) (write_csv rows).
Proof.
  split; [apply length_write_csv|].
  destruct rows as [|r rows].
  - exists ["no_data"]. split; [done|]. by repeat constructor.
  - unfold write_csv. set (rs := r :: rows). set (hs := collect_headers rs).
    exists hs. split; [done|]. constructor; [done|].
    apply Forall_forall. intros rec Hin.
    apply list_elem_of_fmap in Hin as (r' & -> & _).
    apply length_render_row.
Qed.

(** X13: the header has no duplicate, and a key is a column exactly when
    some row has it. *)
Theorem X13_header_keys rows :
  NoDup (collect_headers rows)
  ∧ ∀ k, k ∈ collect_headers rows ↔ ∃ r, r ∈ rows ∧ k ∈ Dict.keys r.
Proof.
  split; [|apply collect_headers_elem].
  rewrite collect_headers_dedup_first. apply NoDup_dedup_first.
Qed.

(** X14: nothing is lost: every field of every row stands in the record
    of that row under the column of its key. *)
Theorem X14_fields_in_their_column rows (r : list (string * string)) k v :
  r ∈ rows → NoDup (Dict.keys r) → (k, v) ∈ r →
  ∃ i, collect_headers rows !! i = Some k
       ∧ render_row (collect_headers rows) r !! i = Some v.
Proof.
  intros Hr Hnd Hkv.
  assert (k ∈ collect_headers rows) as Hk.
  { apply collect_headers_elem. exists r. split; [done|].
    by apply (list_elem_of_fmap_2 fst) in Hkv. }
  apply list_elem_of_lookup in Hk as [i Hi]. exists i. split; [done|].
  by rewrite (render_row_lookup _ _ _ _ Hi), (elem_get _ _ _ Hnd Hkv).
Qed.

Lemma X14_fields_in_their_column_witness :
  ∃ i, collect_headers [row_ab; row_bc] !! i = Some "c"
       ∧ render_row (collect_headers [row_ab; row_bc]) row_bc !! i = Some "4".
Proof.
  apply (X14_fields_in_their_column [row_ab; row_bc] row_bc "c" "4").
  - right. left.
  - vm_compute. repeat constructor; set_solver.
  - right. left.
Defined.

Lemma dedup_first_app l1 l2 :
  dedup_first (l1 ++ l2)
  = dedup_first l1 ++ filter (λ x, x ∉ l1) (dedup_first l2).
Proof.
  rewrite <- !fold_push_new_nil, fold_left_app, fold_push_new.
  rewrite !fold_push_new_nil. f_equal. apply list_filter_iff.
  intros x. by rewrite elem_of_dedup_first.
Qed.

(** X15: the keys of the first row come first in the header, in that
    row's order; the columns that follow are those of the remaining rows
    that the first row does not have. *)
Theorem X15_first_row_leads_header (r : list (string * string)) rows :
  NoDup (Dict.keys r) →
  collect_headers (r :: rows)
  = Dict.keys r ++ filter (λ k, k ∉ Dict.keys r) (collect_headers rows).
Proof.
  intros Hnd. rewrite !collect_headers_dedup_first. simpl.
  by rewrite dedup_first_app, dedup_first_NoDup.
Qed.

Lemma X15_first_row_leads_header_witness :
  collect_headers [row_ab; row_bc]
  = Dict.keys row_ab
    ++ filter (λ k, k ∉ Dict.keys row_ab) (collect_headers [row_bc]).
Proof.
  apply (X15_first_row_leads_header row_ab [row_bc]).
  vm_compute. repeat constructor; set_solver.
Defined.

Lemma write_csv_placeholder_iff rows :
  write_csv rows = [["no_data"]] ↔ rows = [].
Proof.
  split; [|by intros ->]. intros Heq.
  pose proof (length_write_csv rows) as Hlen.
  rewrite Heq in Hlen. simpl in Hlen. destruct rows; [done|simpl in Hlen; lia].
Qed.

(** X16: the placeholder header [no_data] is written for an empty list of
    rows and for nothing else; rows that are all empty give an empty
    header and one empty record each. *)
Theorem X16_placeholder_only_without_rows rows :
  (write_csv rows = [["no_data"]] ↔ rows = [])
  ∧ (rows ≠ [] → Forall (λ r, r = []) rows →
     write_csv rows = [] :: replicate (length rows) []).
Proof.
  split; [apply write_csv_placeholder_iff|].
  - intros Hne Hall.
    assert (collect_headers rows = []) as Hhs.
    { destruct (collect_headers rows) as [|k hs] eqn:Hhs; [done|].
      assert (k ∈ collect_headers rows) as Hk by (rewrite Hhs; left).
      apply collect_headers_elem in Hk as (r & Hr & Hk).
      rewrite Forall_forall in Hall. rewrite (Hall r Hr) in Hk.
      by apply elem_of_nil in Hk. }
    destruct rows as [|r rows]; [done|]. unfold write_csv. rewrite Hhs.
    f_equal. generalize (r :: rows). intros l.
    induction l as [|x l IH]; simpl; [done|]. by rewrite IH.
Qed.

Lemma X16_placeholder_only_without_rows_witness :
  write_csv [[]; []] = [[]; []; []].
Proof.
  apply (proj2 (X16_placeholder_only_without_rows [[]; []])).
  - discriminate.
  - repeat constructor.
Defined.

(** ** From the tree to the table *)

(** X17: in the record of a flattened element a cell is empty exactly
    when the element has no field under that column: a field that is
    present is never rendered as an empty cell. *)
Theorem X17_empty_cell_iff_missing headers elem i k :
  headers !! i = Some k →
  (render_row headers (flatten_item elem) !! i = Some ""
   ↔ Dict.get (flatten_item elem) k = None).
Proof.
  intros Hk. rewrite (render_row_lookup _ _ _ _ Hk).
  destruct (Dict.get (flatten_item elem) k) as [v|] eqn:Hget; simpl.
  - apply flatten_item_value_nonempty in Hget. split; [|done].
    by intros [= ->].
  - done.
Qed.

Lemma X17_empty_cell_iff_missing_witness :
  render_row ["price"; "vat"] (flatten_item price_doc) !! 1 = Some "".
Proof.
  apply (X17_empty_cell_iff_missing ["price"; "vat"] price_doc 1 "vat").
  - reflexivity.
  - reflexivity.
Defined.

Lemma write_csv_lookup rows i (r : list (string * string)) :
  rows !! i = Some r →
  write_csv rows !! S i = Some (render_row (collect_headers rows) r).
Proof.
  intros Hi. destruct rows as [|r0 rows]; [done|].
  unfold write_csv. set (rs := r0 :: rows) in *.
  change ((collect_headers rs :: map (render_row (collect_headers rs)) rs)
          !! S i)
    with ((render_row (collect_headers rs) <$> rs) !! i).
  by rewrite list_lookup_fmap, Hi.
Qed.

(** X18: the table [main] writes has the header and one record per
    selected item, in the order of the items; without a forced tag it is
    the placeholder table exactly when the root has no children. *)
Theorem X18_one_record_per_item force_tag root :
  length (main_table force_tag root)
  = S (length (select_items force_tag root).1)
  ∧ (∀ i item, (select_items force_tag root).1 !! i = Some item →
       main_table force_tag root !! S i
       = Some (render_row (collect_headers (main_rows force_tag root))
                 (flatten_item item)))
  ∧ (main_table "" root = [["no_data"]] ↔ children root = []).
Proof.
  unfold main_table, main_rows. split; [|split].
  - by rewrite length_write_csv, length_map.
  - intros i item Hi. apply write_csv_lookup.
    change (map ?f ?l) with (f <$> l). by rewrite list_lookup_fmap, Hi.
  - rewrite write_csv_placeholder_iff.
    change (select_items "" root).1 with (detect_items root).1.
    rewrite <- detect_items_nil_iff.
    split; [by intros ?%map_eq_nil|by intros ->].
Qed.

Lemma X18_one_record_per_item_witness :
  main_table "" images_doc !! 2 = Some ["b"].
Proof.
  apply (proj1 (proj2 (X18_one_record_per_item "" images_doc)) 1
           (leaf "image" "b")).
  reflexivity.
Defined.

(** ** The tag counts *)

Lemma sum_setitem (d : list (string * nat)) k v :
  sum_list (Dict.setitem d k v).*2 + default 0 (Dict.get d k)
  = sum_list d.*2 + v.
Proof.
  induction d as [|[k0 v0] d IH]; cbn [Dict.setitem Dict.get].
  { simpl. lia. }
  destruct (decide (k0 = k)); rewrite !fmap_cons; simpl in *; lia.
Qed.

Lemma sum_count_fold cs (d : list (string * nat)) :
  sum_list
    (fold_left
       (λ counts child,
          Dict.setitem counts (tag child)
            (default 0 (Dict.get counts (tag child)) + 1)) cs d).*2
  = sum_list d.*2 + length cs.
Proof.
  revert d. induction cs as [|c cs IH]; intros d; simpl; [lia|].
  rewrite IH.
  pose proof (sum_setitem d (tag c) (default 0 (Dict.get d (tag c)) + 1)).
  lia.
Qed.

(** X19: the dictionary of counts built for one parent holds every tag
    that occurs among the children, once, in the order of its first
    child, with the number of children that carry it; a tag no child
    carries is not in it, and the counts add up to the number of
    children. *)
Theorem X19_counts_per_tag cs :
  count_tags cs
  = map (λ t, (t, length (filter (λ c, tag c = t) cs)))
      (dedup_first (map tag cs))
  ∧ (∀ t, Dict.get (count_tags cs) t = None ↔ ∀ c, c ∈ cs → tag c ≠ t)
  ∧ sum_list (count_tags cs).*2 = length cs.
Proof.
  split; [apply count_tags_spec|]. split.
  - intros t. rewrite get_None_keys, count_tags_spec. unfold Dict.keys.
    rewrite <- list_fmap_compose.
    change (fmap _ ?l) with (fmap (M:=list) (@id string) l).
    rewrite list_fmap_id, elem_of_dedup_first, list_elem_of_fmap.
    split.
    + intros Hno c Hc Ht. apply Hno. eauto.
    + intros Hno (c & -> & Hc). by apply (Hno c).
  - unfold count_tags. by rewrite sum_count_fold.
Qed.
